(** * ask_sdk_core.response_helper

    A shallow embedding of [ask_sdk_core/response_helper.py]: the
    [ResponseFactory] builder and the display text-content helpers,
    together with the properties of the builder and of the helpers. *)

From Stdlib Require Import Ascii String.
From Stdlib Require Import List Bool Arith NArith ZArith Lia.
Import ListNotations.

(** ** Python strings

    A Python [str] is a sequence of code points.  Only the builtins
    that [response_helper.py] calls are modelled: [strip],
    [startswith], [endswith], slicing with step 1, [+] and [format]
    with one [{}] at a fixed place. *)

Module Py.

Definition char := N.
Definition str := list char.

(** A literal of the source, as a sequence of code points. *)
Definition lit (s : string) : str :=
  map N_of_ascii (list_ascii_of_string s).

Definition char_eqb : char -> char -> bool := N.eqb.

Fixpoint str_eqb (a b : str) : bool :=
  match a, b with
  | [], [] => true
  | x :: a', y :: b' => char_eqb x y && str_eqb a' b'
  | _, _ => false
  end.

(** [str.isspace] on one code point: the characters that [strip()]
    without argument removes. *)
Definition isspace (c : char) : bool :=
  ((9 <=? c) && (c <=? 13) ||
   (28 <=? c) && (c <=? 32) ||
   (c =? 133) || (c =? 160) || (c =? 5760) ||
   (8192 <=? c) && (c <=? 8202) ||
   (c =? 8232) || (c =? 8233) || (c =? 8239) || (c =? 8287) ||
   (c =? 12288))%N.

Fixpoint lstrip (s : str) : str :=
  match s with
  | [] => []
  | c :: r => if isspace c then lstrip r else s
  end.

Definition rstrip (s : str) : str := rev (lstrip (rev s)).

(** [s.strip()] *)
Definition strip (s : str) : str := rstrip (lstrip s).

(** [s.startswith(prefix)] *)
Fixpoint startswith (s prefix : str) {struct prefix} : bool :=
  match prefix, s with
  | [], _ => true
  | _ :: _, [] => false
  | p :: prefix', c :: s' => char_eqb c p && startswith s' prefix'
  end.

(** [s.endswith(suffix)]: the last [len(suffix)] characters of [s],
    when there are that many, are [suffix]. *)
Definition endswith (s suffix : str) : bool :=
  (length suffix <=? length s) &&
  str_eqb (skipn (length s - length suffix) s) suffix.

(** [s[start:stop]], either index possibly negative. *)
Definition slice (s : str) (start stop : Z) : str :=
  let n := Z.of_nat (length s) in
  let adjust i := if (i <? 0)%Z then Z.max 0 (i + n) else Z.min i n in
  let lo := adjust start in
  let hi := adjust stop in
  firstn (Z.to_nat (hi - lo)) (skipn (Z.to_nat lo) s).

(** The truth value of an optional string in an [if]: [None] and the
    empty string are false. *)
Definition truthy (s : option str) : bool :=
  match s with
  | None => false
  | Some [] => false
  | Some (_ :: _) => true
  end.

End Py.

Import Py.

(** ** The response model ([ask_sdk_model])

    The classes of [ask_sdk_model] that the helper builds or reads,
    as records.  Every attribute that Python lets be [None] is an
    [option]. *)

Record SsmlOutputSpeech := { ssml : str }.

Record Reprompt := { reprompt_output_speech : SsmlOutputSpeech }.

(** A card is stored as it is given; the helper reads none of its
    attributes. *)
Record Card := { card_object_type : option str; card_content : str }.

(** A directive: the helper reads [object_type] only; [directive_body]
    stands for the attributes of the subclass. *)
Record Directive := { object_type : option str; directive_body : str }.

Record Response := {
  output_speech : option SsmlOutputSpeech;
  card : option Card;
  reprompt : option Reprompt;
  directives : option (list (option Directive));
  should_end_session : option bool
}.

Inductive TextField :=
| PlainText (text : str)
| RichText (text : str).

Record TextContent := {
  primary_text : option TextField;
  secondary_text : option TextField;
  tertiary_text : option TextField
}.

(** Attribute assignment on a [Response] and on a [TextContent]. *)
Definition set_output_speech (v : option SsmlOutputSpeech) (r : Response) :=
  {| output_speech := v; card := card r; reprompt := reprompt r;
     directives := directives r;
     should_end_session := should_end_session r |}.

Definition set_card_attr (v : option Card) (r : Response) :=
  {| output_speech := output_speech r; card := v; reprompt := reprompt r;
     directives := directives r;
     should_end_session := should_end_session r |}.

Definition set_reprompt (v : option Reprompt) (r : Response) :=
  {| output_speech := output_speech r; card := card r; reprompt := v;
     directives := directives r;
     should_end_session := should_end_session r |}.

Definition set_directives (v : option (list (option Directive)))
    (r : Response) :=
  {| output_speech := output_speech r; card := card r;
     reprompt := reprompt r; directives := v;
     should_end_session := should_end_session r |}.

Definition set_should_end_session_attr (v : option bool) (r : Response) :=
  {| output_speech := output_speech r; card := card r;
     reprompt := reprompt r; directives := directives r;
     should_end_session := v |}.

Definition set_primary_text (v : option TextField) (t : TextContent) :=
  {| primary_text := v; secondary_text := secondary_text t;
     tertiary_text := tertiary_text t |}.

Definition set_secondary_text (v : option TextField) (t : TextContent) :=
  {| primary_text := primary_text t; secondary_text := v;
     tertiary_text := tertiary_text t |}.

Definition set_tertiary_text (v : option TextField) (t : TextContent) :=
  {| primary_text := primary_text t; secondary_text := secondary_text t;
     tertiary_text := v |}.

(** ** Module constants *)

Definition PLAIN_TEXT_TYPE : str := lit "PlainText".
Definition RICH_TEXT_TYPE : str := lit "RichText".

Definition VIDEO_APP_LAUNCH : str := lit "VideoApp.Launch".
Definition SPEAK_OPEN : str := lit "<speak>".
Definition SPEAK_CLOSE : str := lit "</speak>".

(** ** ResponseFactory *)

Record ResponseFactory := { response : Response }.

(** [__init__]: a response with all parameters [None]. *)
Definition construct : ResponseFactory :=
  {| response :=
       {| output_speech := None; card := None; reprompt := None;
          directives := None; should_end_session := None |} |}.

(** [directive is not None and directive.object_type == "VideoApp.Launch"] *)
Definition is_video_app_launch (directive : option Directive) : bool :=
  match directive with
  | None => false
  | Some d =>
      match object_type d with
      | None => false
      | Some t => str_eqb t VIDEO_APP_LAUNCH
      end
  end.

Definition __trim_outputspeech (speech_output : option str) : str :=
  match speech_output with
  | None => []
  | Some speech_output =>
      let speech := strip speech_output in
      if startswith speech SPEAK_OPEN && endswith speech SPEAK_CLOSE
      then strip (slice speech 7 (-8))
      else speech
  end.

(** The [for] loop with its early [return True]. *)
Fixpoint scan_directives (ds : list (option Directive)) : bool :=
  match ds with
  | [] => false
  | directive :: rest =>
      if is_video_app_launch directive then true else scan_directives rest
  end.

Definition __is_video_app_launch_directive_present
    (self : ResponseFactory) : bool :=
  match directives (response self) with
  | None => false
  | Some ds => scan_directives ds
  end.

(** ["<speak>{}</speak>".format(x)] *)
Definition speak_format (x : str) : str := SPEAK_OPEN ++ x ++ SPEAK_CLOSE.

Definition speak (self : ResponseFactory) (speech : option str)
    : ResponseFactory :=
  let ssml := speak_format (__trim_outputspeech speech) in
  {| response :=
       set_output_speech (Some {| ssml := ssml |}) (response self) |}.

Definition ask (self : ResponseFactory) (reprompt : option str)
    : ResponseFactory :=
  let ssml := speak_format (__trim_outputspeech reprompt) in
  let output_speech := {| ssml := ssml |} in
  let self1 :=
    {| response :=
         set_reprompt
           (Some {| reprompt_output_speech := output_speech |})
           (response self) |} in
  if negb (__is_video_app_launch_directive_present self1)
  then {| response :=
            set_should_end_session_attr (Some false) (response self1) |}
  else self1.

Definition set_card (self : ResponseFactory) (card : option Card)
    : ResponseFactory :=
  {| response := set_card_attr card (response self) |}.

Definition add_directive (self : ResponseFactory)
    (directive : option Directive) : ResponseFactory :=
  (* if self.response.directives is None: self.response.directives = [] *)
  let ds :=
    match directives (response self) with
    | None => []
    | Some ds => ds
    end in
  let r1 := set_directives (Some ds) (response self) in
  let r2 :=
    if is_video_app_launch directive
    then set_should_end_session_attr None r1
    else r1 in
  (* self.response.directives.append(directive) *)
  {| response := set_directives (Some (ds ++ [directive])) r2 |}.

Definition set_should_end_session (self : ResponseFactory)
    (should_end_session : option bool) : ResponseFactory :=
  if negb (__is_video_app_launch_directive_present self)
  then {| response :=
            set_should_end_session_attr should_end_session
              (response self) |}
  else self.

(** A call of one of the five builder methods, and a chain of calls
    [construct().m1(..).m2(..)...]. *)
Inductive Call :=
| Speak (speech : option str)
| Ask (reprompt : option str)
| SetCard (card : option Card)
| AddDirective (directive : option Directive)
| SetShouldEndSession (should_end_session : option bool).

Definition call (self : ResponseFactory) (c : Call) : ResponseFactory :=
  match c with
  | Speak speech => speak self speech
  | Ask reprompt => ask self reprompt
  | SetCard card => set_card self card
  | AddDirective directive => add_directive self directive
  | SetShouldEndSession v => set_should_end_session self v
  end.

Definition chain (self : ResponseFactory) (cs : list Call)
    : ResponseFactory :=
  fold_left call cs self.

(** ** Text content helpers

    [__set_text_field] raises [ValueError]; the exception passes
    through [get_text_content] to the caller.  A computation that may
    raise returns [Raise e] or [Return v]. *)

Inductive Exception :=
| ValueError (message : str).

Inductive result (A : Type) :=
| Return (v : A)
| Raise (e : Exception).

Arguments Return {A} v.
Arguments Raise {A} e.

Definition bind {A B : Type} (m : result A) (k : A -> result B)
    : result B :=
  match m with
  | Return v => k v
  | Raise e => Raise e
  end.

Notation "x <- m ;; k" := (bind m (fun x => k))
  (at level 61, m at next level, right associativity).

(** [text_type not in [PLAIN_TEXT_TYPE, RICH_TEXT_TYPE]] *)
Definition recognized (text_type : str) : bool :=
  str_eqb text_type PLAIN_TEXT_TYPE || str_eqb text_type RICH_TEXT_TYPE.

Definition __set_text_field (text : option str) (text_type : str)
    : result (option TextField) :=
  match text with
  | Some (c :: s) =>
      if negb (recognized text_type)
      then Raise (ValueError (lit "Invalid type provided: " ++ text_type))
      else if str_eqb text_type PLAIN_TEXT_TYPE
           then Return (Some (PlainText (c :: s)))
           else Return (Some (RichText (c :: s)))
  | _ => Return None
  end.

Definition get_text_content
    (primary_text : option str) (primary_text_type : str)
    (secondary_text : option str) (secondary_text_type : str)
    (tertiary_text : option str) (tertiary_text_type : str)
    : result TextContent :=
  let text_content :=
    {| primary_text := None; secondary_text := None;
       tertiary_text := None |} in
  text_content <-
    (if truthy primary_text
     then f <- __set_text_field primary_text primary_text_type ;;
          Return (set_primary_text f text_content)
     else Return text_content) ;;
  text_content <-
    (if truthy secondary_text
     then f <- __set_text_field secondary_text secondary_text_type ;;
          Return (set_secondary_text f text_content)
     else Return text_content) ;;
  text_content <-
    (if truthy tertiary_text
     then f <- __set_text_field tertiary_text tertiary_text_type ;;
          Return (set_tertiary_text f text_content)
     else Return text_content) ;;
  Return text_content.

Definition get_plain_text_content
    (primary_text secondary_text tertiary_text : option str)
    : result TextContent :=
  get_text_content
    primary_text PLAIN_TEXT_TYPE
    secondary_text PLAIN_TEXT_TYPE
    tertiary_text PLAIN_TEXT_TYPE.

Definition get_rich_text_content
    (primary_text secondary_text tertiary_text : option str)
    : result TextContent :=
  get_text_content
    primary_text RICH_TEXT_TYPE
    secondary_text RICH_TEXT_TYPE
    tertiary_text RICH_TEXT_TYPE.

(** ** The trimming rule as the specification words it

    "Returns the empty string for absent input; otherwise strips
    surrounding whitespace, and if the result is wrapped in the exact
    root markup tag pair, removes that one outer layer (and the
    whitespace immediately inside it); otherwise returns the stripped
    text unchanged."  Written with prefix and suffix removal instead of
    the source's fixed slice indices, to be compared with
    [__trim_outputspeech]. *)

Fixpoint remove_prefix (p u : str) : option str :=
  match p, u with
  | [], _ => Some u
  | _ :: _, [] => None
  | x :: p', c :: u' => if char_eqb c x then remove_prefix p' u' else None
  end.

Definition remove_suffix (q u : str) : option str :=
  option_map (@rev char) (remove_prefix (rev q) (rev u)).

(** [unwrap u] is [Some body] when [u] is [<speak>body</speak>]. *)
Definition unwrap (u : str) : option str :=
  match remove_prefix SPEAK_OPEN u with
  | Some r => remove_suffix SPEAK_CLOSE r
  | None => None
  end.

Definition trim_spec (t : option str) : str :=
  match t with
  | None => []
  | Some s =>
      match unwrap (strip s) with
      | Some body => strip body
      | None => strip s
      end
  end.

(** ** What the specification expects of one text field

    A text that is absent or empty leaves the field unset; a non-empty
    text with a recognized tag gives a value tagged after the tag and
    carrying the text. *)

Definition valid_tag (tag : str) : Prop :=
  tag = PLAIN_TEXT_TYPE \/ tag = RICH_TEXT_TYPE.

Definition nonempty (text : option str) : Prop :=
  exists c s, text = Some (c :: s).

Definition field_ok (text : option str) (tag : str)
    (field : option TextField) : Prop :=
  (text = None \/ text = Some [] -> field = None) /\
  (forall x, text = Some x -> x <> [] ->
     (tag = PLAIN_TEXT_TYPE -> field = Some (PlainText x)) /\
     (tag = RICH_TEXT_TYPE -> field = Some (RichText x))).

(** The current contents of [directives], an unset sequence read as
    empty. *)
Definition directive_list (self : ResponseFactory)
    : list (option Directive) :=
  match directives (response self) with
  | None => []
  | Some ds => ds
  end.

(** The text-content outcome, computed field by field: the tag of the
    first field whose text is non-empty and whose tag is not
    recognized, if there is one, and otherwise the value each field
    receives. *)
Definition offending (text : option str) (tag : str) : bool :=
  truthy text && negb (recognized tag).

Definition first_offending
    (p : option str) (pt : str) (s : option str) (st : str)
    (t : option str) (tt : str) : option str :=
  if offending p pt then Some pt
  else if offending s st then Some st
  else if offending t tt then Some tt
  else None.

Definition expected_field (text : option str) (tag : str)
    : option TextField :=
  match text with
  | Some (c :: x) =>
      Some (if str_eqb tag PLAIN_TEXT_TYPE
            then PlainText (c :: x) else RichText (c :: x))
  | _ => None
  end.

(** A field tagged with one constructor whatever the text. *)
Definition tagged (mk : str -> TextField) (text : option str)
    : option TextField :=
  match text with
  | Some (c :: x) => Some (mk (c :: x))
  | _ => None
  end.

(** ** Sample values *)

Definition launch_directive : Directive :=
  {| object_type := Some VIDEO_APP_LAUNCH; directive_body := lit "video" |}.

(** The invariant of the builder: no concrete [should_end_session]
    while a video app launch directive is among the directives. *)
Definition session_unset_while_launching (self : ResponseFactory) : Prop :=
  __is_video_app_launch_directive_present self = true ->
  should_end_session (response self) = None.

(** ** What a chain of calls writes

    Read off the list of calls: the directives that its
    [add_directive] calls give, and what a call, taken alone, writes
    into one field of the response. *)

Fixpoint added (cs : list Call) : list (option Directive) :=
  match cs with
  | [] => []
  | AddDirective d :: cs' => d :: added cs'
  | _ :: cs' => added cs'
  end.

(** The value a field has after the calls [cs], when a call [c] with
    [w c = Some a] writes [a] and every other call leaves the field:
    the value of the last writing call, or the value before. *)
Fixpoint last_write {A : Type} (w : Call -> option A) (cs : list Call)
    (before : A) : A :=
  match cs with
  | [] => before
  | c :: cs' =>
      last_write w cs' (match w c with Some a => a | None => before end)
  end.

Definition writes_output_speech (c : Call)
    : option (option SsmlOutputSpeech) :=
  match c with
  | Speak t => Some (Some {| ssml := speak_format (__trim_outputspeech t) |})
  | _ => None
  end.

Definition writes_card (c : Call) : option (option Card) :=
  match c with
  | SetCard k => Some k
  | _ => None
  end.

Definition writes_reprompt (c : Call) : option (option Reprompt) :=
  match c with
  | Ask t =>
      Some (Some {| reprompt_output_speech :=
                      {| ssml := speak_format (__trim_outputspeech t) |} |})
  | _ => None
  end.

(** What a call writes into [should_end_session] when no video app
    launch directive is among the directives. *)
Definition writes_session (c : Call) : option (option bool) :=
  match c with
  | Ask _ => Some (Some false)
  | SetShouldEndSession v => Some v
  | _ => None
  end.

(** A string of whitespace only. *)
Definition blank (s : str) : bool := forallb isspace s.

(** A stored speech: one tag pair around a text that has no whitespace
    at either end. *)
Definition wrapped_once (o : SsmlOutputSpeech) : Prop :=
  exists x, ssml o = SPEAK_OPEN ++ x ++ SPEAK_CLOSE /\ strip x = x.

Definition speech_well_formed (self : ResponseFactory) : Prop :=
  (forall o, output_speech (response self) = Some o -> wrapped_once o) /\
  (forall r, reprompt (response self) = Some r ->
     wrapped_once (reprompt_output_speech r)).

(** * Properties *)

(** ** Python strings *)

Section PyFacts.

Lemma char_eqb_eq (a b : char) : char_eqb a b = true <-> a = b.
Proof. apply N.eqb_eq. Qed.

Lemma str_eqb_eq (a b : str) : str_eqb a b = true <-> a = b.
Proof.
  revert b; induction a as [|x a IH]; intros [|y b]; simpl;
    try (split; [discriminate | discriminate]); try tauto.
  rewrite andb_true_iff, char_eqb_eq, IH.
  split; [intros [-> ->]; reflexivity | intros H; inversion H; auto].
Qed.

Lemma str_eqb_refl (a : str) : str_eqb a a = true.
Proof. apply str_eqb_eq; reflexivity. Qed.

Lemma startswith_app (p r : str) : startswith (p ++ r) p = true.
Proof.
  induction p as [|x p IH]; simpl; [reflexivity|].
  rewrite IH, andb_true_r. apply char_eqb_eq; reflexivity.
Qed.

Lemma startswith_inv (s p : str) :
  startswith s p = true -> exists r, s = p ++ r.
Proof.
  revert s; induction p as [|x p IH]; intros s H.
  - exists s; reflexivity.
  - destruct s as [|c s]; simpl in H; [discriminate|].
    apply andb_true_iff in H as [Hc Hs].
    apply char_eqb_eq in Hc; subst c.
    destruct (IH _ Hs) as [r ->]. exists r; reflexivity.
Qed.

Lemma endswith_app (r q : str) : endswith (r ++ q) q = true.
Proof.
  unfold endswith. rewrite length_app.
  replace (length r + length q - length q) with (length r) by lia.
  rewrite skipn_app, skipn_all, Nat.sub_diag. simpl.
  rewrite str_eqb_refl, andb_true_r.
  apply Nat.leb_le; lia.
Qed.

Lemma endswith_inv (s q : str) :
  endswith s q = true -> exists r, s = r ++ q.
Proof.
  unfold endswith; intros H.
  apply andb_true_iff in H as [_ H]. apply str_eqb_eq in H.
  exists (firstn (length s - length q) s).
  rewrite <- (firstn_skipn (length s - length q) s) at 1.
  f_equal; exact H.
Qed.

Lemma remove_prefix_app (p r : str) : remove_prefix p (p ++ r) = Some r.
Proof.
  induction p as [|x p IH]; simpl; [reflexivity|].
  replace (char_eqb x x) with true
    by (symmetry; apply char_eqb_eq; reflexivity).
  exact IH.
Qed.

Lemma remove_prefix_inv (p u r : str) :
  remove_prefix p u = Some r -> u = p ++ r.
Proof.
  revert u; induction p as [|x p IH]; intros u H; simpl in H.
  - inversion H; reflexivity.
  - destruct u as [|c u]; [discriminate|].
    destruct (char_eqb c x) eqn:E; [|discriminate].
    apply char_eqb_eq in E; subst c. simpl; f_equal; auto.
Qed.

Lemma remove_suffix_app (q r : str) : remove_suffix q (r ++ q) = Some r.
Proof.
  unfold remove_suffix. rewrite rev_app_distr, remove_prefix_app.
  simpl. rewrite rev_involutive. reflexivity.
Qed.

Lemma remove_suffix_inv (q u r : str) :
  remove_suffix q u = Some r -> u = r ++ q.
Proof.
  unfold remove_suffix; intros H.
  destruct (remove_prefix (rev q) (rev u)) as [w|] eqn:E; [|discriminate].
  inversion H; subst r. apply remove_prefix_inv in E.
  rewrite <- (rev_involutive u), E, rev_app_distr, rev_involutive.
  reflexivity.
Qed.

Lemma slice_inner (p body q : str) :
  q <> [] ->
  slice (p ++ body ++ q) (Z.of_nat (length p)) (- Z.of_nat (length q))
  = body.
Proof.
  intros Hq. unfold slice.
  assert (0 < length q) by (destruct q; simpl; [congruence | lia]).
  rewrite !length_app.
  destruct (Z.of_nat (length p) <? 0)%Z eqn:E1;
    [apply Z.ltb_lt in E1; lia|].
  destruct (- Z.of_nat (length q) <? 0)%Z eqn:E2;
    [|apply Z.ltb_ge in E2; lia].
  replace (Z.to_nat _) with (length body) by lia.
  replace (Z.to_nat _) with (length p) by lia.
  rewrite skipn_app, skipn_all, Nat.sub_diag. simpl.
  rewrite firstn_app, firstn_all, Nat.sub_diag. simpl.
  apply app_nil_r.
Qed.

Lemma lstrip_length (s : str) : length (lstrip s) <= length s.
Proof.
  induction s as [|c s IH]; simpl; [lia|].
  destruct (isspace c); simpl; lia.
Qed.

Lemma strip_length (s : str) : length (strip s) <= length s.
Proof.
  unfold strip, rstrip. rewrite length_rev.
  etransitivity; [apply lstrip_length|].
  rewrite length_rev. apply lstrip_length.
Qed.

Lemma lstrip_cons (c : char) (s : str) :
  isspace c = false -> lstrip (c :: s) = c :: s.
Proof. intros H; simpl; rewrite H; reflexivity. Qed.

Lemma lstrip_snoc (s : str) (c : char) :
  isspace c = false -> lstrip (s ++ [c]) = lstrip s ++ [c].
Proof.
  intros H; induction s as [|x s IH]; simpl.
  - rewrite H; reflexivity.
  - destruct (isspace x); [exact IH | reflexivity].
Qed.

Lemma rstrip_cons (c : char) (s : str) :
  isspace c = false -> rstrip (c :: s) = c :: rstrip s.
Proof.
  intros H; unfold rstrip; simpl.
  rewrite lstrip_snoc by exact H.
  rewrite rev_app_distr; reflexivity.
Qed.

Lemma rstrip_snoc (s : str) (c : char) :
  isspace c = false -> rstrip (s ++ [c]) = s ++ [c].
Proof.
  intros H; unfold rstrip. rewrite rev_app_distr; simpl.
  rewrite H; simpl. rewrite rev_involutive; reflexivity.
Qed.

Lemma lstrip_idem (s : str) : lstrip (lstrip s) = lstrip s.
Proof.
  induction s as [|c s IH]; simpl; [reflexivity|].
  destruct (isspace c) eqn:E; [exact IH|].
  simpl; rewrite E; reflexivity.
Qed.

Lemma rstrip_idem (s : str) : rstrip (rstrip s) = rstrip s.
Proof.
  unfold rstrip. rewrite rev_involutive, lstrip_idem; reflexivity.
Qed.

(** A string with no leading whitespace keeps that after [rstrip]. *)
Lemma lstrip_rstrip (s : str) :
  lstrip s = s -> lstrip (rstrip s) = rstrip s.
Proof.
  destruct s as [|c s]; [reflexivity|].
  simpl. destruct (isspace c) eqn:E.
  - intros H. pose proof (lstrip_length s) as L.
    rewrite H in L; simpl in L; lia.
  - intros _. rewrite rstrip_cons by exact E.
    apply lstrip_cons; exact E.
Qed.

Lemma strip_idem (s : str) : strip (strip s) = strip s.
Proof.
  unfold strip.
  rewrite (lstrip_rstrip (lstrip s)) by apply lstrip_idem.
  apply rstrip_idem.
Qed.

(** A string that begins and ends with characters that are not
    whitespace is left as it is. *)
Lemma strip_fixed (a b : char) (s : str) :
  isspace a = false -> isspace b = false ->
  strip (a :: s ++ [b]) = a :: s ++ [b].
Proof.
  intros Ha Hb. unfold strip.
  rewrite lstrip_cons by exact Ha.
  exact (rstrip_snoc (a :: s) b Hb).
Qed.

End PyFacts.

(** ** The tag pair *)

Section Tags.

(** The opening tag and the closing tag cannot share characters: a
    string that starts with one and ends with the other has the form
    [<speak>body</speak>]. *)
Lemma tags_do_not_overlap (r r' : str) :
  SPEAK_OPEN ++ r = r' ++ SPEAK_CLOSE ->
  exists body, r = body ++ SPEAK_CLOSE.
Proof.
  intros H. apply app_eq_app in H as [l [[H1 H2] | [H1 H2]]].
  - destruct l as [|x l].
    + exists []. simpl in H2. symmetry; exact H2.
    + exfalso. revert H1 H2. unfold SPEAK_OPEN, SPEAK_CLOSE.
      cbv [lit map list_ascii_of_string N_of_ascii N_of_digits].
      simpl.
      do 8 (destruct r' as [|? r']; simpl;
            [intros H1 H2; inversion H1; subst; discriminate H2
            |intros H1; try discriminate H1;
             injection H1 as _ H1; revert H1]).
  - exists l. exact H2.
Qed.

Lemma wrapped_inv (u : str) :
  startswith u SPEAK_OPEN && endswith u SPEAK_CLOSE = true ->
  exists body, u = SPEAK_OPEN ++ body ++ SPEAK_CLOSE.
Proof.
  intros H. apply andb_true_iff in H as [H1 H2].
  apply startswith_inv in H1 as [r ->].
  apply endswith_inv in H2 as [r' H2].
  apply tags_do_not_overlap in H2 as [body ->].
  exists body; reflexivity.
Qed.

Lemma wrapped_intro (body : str) :
  startswith (SPEAK_OPEN ++ body ++ SPEAK_CLOSE) SPEAK_OPEN
  && endswith (SPEAK_OPEN ++ body ++ SPEAK_CLOSE) SPEAK_CLOSE = true.
Proof.
  rewrite startswith_app, andb_true_l.
  rewrite app_assoc. apply endswith_app.
Qed.

Lemma slice_wrapped (body : str) :
  slice (SPEAK_OPEN ++ body ++ SPEAK_CLOSE) 7 (-8) = body.
Proof.
  apply (slice_inner SPEAK_OPEN body SPEAK_CLOSE). discriminate.
Qed.

Lemma unwrap_wrapped (body : str) :
  unwrap (SPEAK_OPEN ++ body ++ SPEAK_CLOSE) = Some body.
Proof.
  unfold unwrap. rewrite remove_prefix_app. apply remove_suffix_app.
Qed.

Lemma unwrap_inv (u body : str) :
  unwrap u = Some body -> u = SPEAK_OPEN ++ body ++ SPEAK_CLOSE.
Proof.
  unfold unwrap; intros H.
  destruct (remove_prefix SPEAK_OPEN u) as [r|] eqn:E; [|discriminate].
  apply remove_prefix_inv in E. apply remove_suffix_inv in H.
  subst; reflexivity.
Qed.

(** The source's slice [speech[7:-8]] removes the tag pair that the
    two tests found. *)
Lemma trim_refines (t : option str) : __trim_outputspeech t = trim_spec t.
Proof.
  destruct t as [s|]; [|reflexivity].
  unfold __trim_outputspeech, trim_spec.
  destruct (startswith (strip s) SPEAK_OPEN
            && endswith (strip s) SPEAK_CLOSE) eqn:E.
  - destruct (wrapped_inv _ E) as [body ->].
    rewrite slice_wrapped, unwrap_wrapped; reflexivity.
  - destruct (unwrap (strip s)) as [body|] eqn:U; [|reflexivity].
    apply unwrap_inv in U. rewrite U, wrapped_intro in E. discriminate.
Qed.

Lemma trim_wrapped (s body : str) :
  strip s = SPEAK_OPEN ++ body ++ SPEAK_CLOSE ->
  __trim_outputspeech (Some s) = strip body.
Proof.
  intros H. unfold __trim_outputspeech.
  rewrite H, wrapped_intro, slice_wrapped; reflexivity.
Qed.

Lemma trim_stripped (t : option str) :
  strip (__trim_outputspeech t) = __trim_outputspeech t.
Proof.
  destruct t as [s|]; [|reflexivity].
  unfold __trim_outputspeech.
  destruct (_ && _); apply strip_idem.
Qed.

Lemma strip_speak_format (x : str) :
  strip (speak_format x) = speak_format x.
Proof.
  unfold speak_format.
  assert (E : SPEAK_OPEN ++ x ++ SPEAK_CLOSE
              = 60%N :: (lit "speak>" ++ x ++ lit "</speak") ++ [62%N])
    by (rewrite <- !app_assoc; reflexivity).
  rewrite E. apply strip_fixed; reflexivity.
Qed.

(** Trimming what was already trimmed and wrapped gives the trimmed
    text back. *)
Lemma trim_speak_format (t : option str) :
  __trim_outputspeech (Some (speak_format (__trim_outputspeech t)))
  = __trim_outputspeech t.
Proof.
  rewrite (trim_wrapped _ (__trim_outputspeech t)).
  - apply trim_stripped.
  - apply strip_speak_format.
Qed.

End Tags.

(** ** ResponseFactory *)

Section Factory.

Lemma scan_directives_app (a b : list (option Directive)) :
  scan_directives (a ++ b) = scan_directives a || scan_directives b.
Proof.
  induction a as [|d a IH]; simpl; [reflexivity|].
  destruct (is_video_app_launch d); [reflexivity | exact IH].
Qed.

Lemma scan_directives_true (ds : list (option Directive)) :
  scan_directives ds = true <->
  exists d, In (Some d) ds /\ object_type d = Some VIDEO_APP_LAUNCH.
Proof.
  induction ds as [|x ds IH]; simpl.
  - split; [discriminate | intros (d & [] & _)].
  - destruct (is_video_app_launch x) eqn:E.
    + split; [intros _ | reflexivity].
      destruct x as [d|]; [|discriminate E]. simpl in E.
      destruct (object_type d) as [ty|] eqn:T; [|discriminate E].
      apply str_eqb_eq in E; subst ty.
      exists d; split; [left; reflexivity | exact T].
    + rewrite IH. split; intros (d & I & T).
      * exists d; split; [right; exact I | exact T].
      * destruct I as [-> | I]; [|exists d; split; assumption].
        simpl in E. rewrite T, str_eqb_refl in E. discriminate E.
Qed.

Lemma present_directive_list (self : ResponseFactory) :
  __is_video_app_launch_directive_present self
  = scan_directives (directive_list self).
Proof.
  unfold __is_video_app_launch_directive_present, directive_list.
  destruct (directives (response self)); reflexivity.
Qed.

Lemma present_add_directive (self : ResponseFactory)
    (d : option Directive) :
  __is_video_app_launch_directive_present (add_directive self d)
  = __is_video_app_launch_directive_present self || is_video_app_launch d.
Proof.
  rewrite (present_directive_list self).
  unfold __is_video_app_launch_directive_present, add_directive,
    directive_list.
  simpl. rewrite scan_directives_app. simpl.
  destruct (is_video_app_launch d); reflexivity.
Qed.

Lemma present_ext (self self' : ResponseFactory) :
  directives (response self) = directives (response self') ->
  __is_video_app_launch_directive_present self
  = __is_video_app_launch_directive_present self'.
Proof.
  unfold __is_video_app_launch_directive_present.
  intros ->; reflexivity.
Qed.

Lemma directives_ask (self : ResponseFactory) (t : option str) :
  directives (response (ask self t)) = directives (response self).
Proof. unfold ask. destruct (negb _); reflexivity. Qed.

Lemma directives_set_should_end_session (self : ResponseFactory)
    (v : option bool) :
  directives (response (set_should_end_session self v))
  = directives (response self).
Proof. unfold set_should_end_session. destruct (negb _); reflexivity. Qed.

Lemma output_speech_speak (self : ResponseFactory) (t : option str) :
  output_speech (response (speak self t))
  = Some {| ssml := speak_format (__trim_outputspeech t) |}.
Proof. reflexivity. Qed.

Lemma reprompt_ask (self : ResponseFactory) (t : option str) :
  reprompt (response (ask self t))
  = Some {| reprompt_output_speech :=
              {| ssml := speak_format (__trim_outputspeech t) |} |}.
Proof. unfold ask. destruct (negb _); reflexivity. Qed.

Lemma session_ask (self : ResponseFactory) (t : option str) :
  should_end_session (response (ask self t))
  = if __is_video_app_launch_directive_present self
    then should_end_session (response self)
    else Some false.
Proof.
  unfold ask.
  match goal with
  | |- context [negb (__is_video_app_launch_directive_present ?x)] =>
      rewrite (present_ext x self) by reflexivity
  end.
  destruct (__is_video_app_launch_directive_present self); reflexivity.
Qed.

Lemma session_set_should_end_session (self : ResponseFactory)
    (v : option bool) :
  should_end_session (response (set_should_end_session self v))
  = if __is_video_app_launch_directive_present self
    then should_end_session (response self)
    else v.
Proof.
  unfold set_should_end_session.
  destruct (__is_video_app_launch_directive_present self); reflexivity.
Qed.

Lemma session_add_directive (self : ResponseFactory)
    (d : option Directive) :
  should_end_session (response (add_directive self d))
  = if is_video_app_launch d
    then None
    else should_end_session (response self).
Proof.
  unfold add_directive; simpl.
  destruct (is_video_app_launch d); reflexivity.
Qed.

Lemma present_call (self : ResponseFactory) (c : Call) :
  __is_video_app_launch_directive_present self = true ->
  __is_video_app_launch_directive_present (call self c) = true.
Proof.
  intros H. destruct c as [t|t|k|d|v]; cbn [call].
  - exact H.
  - rewrite (present_ext _ self) by apply directives_ask. exact H.
  - exact H.
  - rewrite present_add_directive, H; reflexivity.
  - rewrite (present_ext _ self)
      by apply directives_set_should_end_session.
    exact H.
Qed.

Lemma present_chain (cs : list Call) (self : ResponseFactory) :
  __is_video_app_launch_directive_present self = true ->
  __is_video_app_launch_directive_present (chain self cs) = true.
Proof.
  revert self; induction cs as [|c cs IH]; intros self H; simpl.
  - exact H.
  - apply IH, present_call, H.
Qed.

Lemma invariant_call (self : ResponseFactory) (c : Call) :
  session_unset_while_launching self ->
  session_unset_while_launching (call self c).
Proof.
  unfold session_unset_while_launching.
  intros I. destruct c as [t|t|k|d|v]; cbn [call].
  - exact I.
  - rewrite (present_ext _ self) by apply directives_ask.
    intros H. rewrite session_ask, H. exact (I H).
  - exact I.
  - rewrite present_add_directive, session_add_directive.
    destruct (is_video_app_launch d).
    + reflexivity.
    + rewrite orb_false_r. exact I.
  - rewrite (present_ext _ self)
      by apply directives_set_should_end_session.
    intros H. rewrite session_set_should_end_session, H. exact (I H).
Qed.

Lemma invariant_chain (cs : list Call) (self : ResponseFactory) :
  session_unset_while_launching self ->
  session_unset_while_launching (chain self cs).
Proof.
  revert self; induction cs as [|c cs IH]; intros self I; simpl.
  - exact I.
  - apply IH, invariant_call, I.
Qed.

Lemma invariant_construct : session_unset_while_launching construct.
Proof. intros H; reflexivity. Qed.

End Factory.

(** ** Text content helpers *)

Section TextContentFacts.

Lemma recognized_valid (tag : str) : recognized tag = true <-> valid_tag tag.
Proof.
  unfold recognized, valid_tag.
  rewrite orb_true_iff, !str_eqb_eq. reflexivity.
Qed.

Lemma truthy_nonempty (text : option str) :
  truthy text = true <-> nonempty text.
Proof.
  unfold nonempty. destruct text as [[|c x]|]; simpl.
  - split; [discriminate | intros (c & x & H); discriminate].
  - split; [intros _; eauto | reflexivity].
  - split; [discriminate | intros (c & x & H); discriminate].
Qed.

Lemma truthy_false (text : option str) :
  truthy text = false <-> text = None \/ text = Some [].
Proof.
  destruct text as [[|c x]|]; simpl.
  - split; auto.
  - split; [discriminate | intros [H|H]; discriminate].
  - split; auto.
Qed.

Lemma offending_iff (text : option str) (tag : str) :
  offending text tag = true <-> nonempty text /\ ~ valid_tag tag.
Proof.
  unfold offending.
  rewrite andb_true_iff, negb_true_iff, truthy_nonempty.
  rewrite <- recognized_valid, not_true_iff_false. reflexivity.
Qed.

Lemma first_offending_some p pt s st t tt tag :
  first_offending p pt s st t tt = Some tag ->
  ~ valid_tag tag /\
  ((nonempty p /\ tag = pt) \/ (nonempty s /\ tag = st) \/
   (nonempty t /\ tag = tt)).
Proof.
  unfold first_offending.
  destruct (offending p pt) eqn:P;
    [|destruct (offending s st) eqn:S;
      [|destruct (offending t tt) eqn:T; [|discriminate]]];
    intros H; inversion H; subst tag;
    match goal with
    | O : offending _ _ = true |- _ => apply offending_iff in O as [? ?]
    end; auto.
Qed.

Lemma first_offending_none p pt s st t tt :
  first_offending p pt s st t tt = None <->
  offending p pt = false /\ offending s st = false /\
  offending t tt = false.
Proof.
  unfold first_offending.
  destruct (offending p pt), (offending s st), (offending t tt);
    split; try discriminate; try tauto;
    intros (? & ? & ?); discriminate.
Qed.

(** What [get_text_content] does, in one equation. *)
Lemma get_text_content_outcome p pt s st t tt :
  get_text_content p pt s st t tt =
  match first_offending p pt s st t tt with
  | Some tag => Raise (ValueError (lit "Invalid type provided: " ++ tag))
  | None =>
      Return {| primary_text := expected_field p pt;
                secondary_text := expected_field s st;
                tertiary_text := expected_field t tt |}
  end.
Proof.
  unfold get_text_content, first_offending, offending, __set_text_field,
    expected_field.
  destruct (recognized pt) eqn:Rp, (recognized st) eqn:Rs,
    (recognized tt) eqn:Rt;
    destruct p as [[|? ?]|], s as [[|? ?]|], t as [[|? ?]|];
    simpl;
    repeat match goal with
           | |- context [if str_eqb ?a ?b then _ else _] =>
               destruct (str_eqb a b)
           end;
    reflexivity.
Qed.

Lemma expected_field_ok (text : option str) (tag : str) :
  field_ok text tag (expected_field text tag).
Proof.
  split.
  - intros [-> | ->]; reflexivity.
  - intros x -> Hx. destruct x as [|c x]; [congruence|].
    split; intros ->; reflexivity.
Qed.

End TextContentFacts.

(** * The claims *)

(** ** Characterisation of [trim_spec] *)

Lemma trim_spec_wrapped (s body : str) :
  strip s = SPEAK_OPEN ++ body ++ SPEAK_CLOSE ->
  trim_spec (Some s) = strip body.
Proof.
  intros H. unfold trim_spec. rewrite H, unwrap_wrapped. reflexivity.
Qed.

Lemma trim_spec_plain (s : str) :
  (forall body, strip s <> SPEAK_OPEN ++ body ++ SPEAK_CLOSE) ->
  trim_spec (Some s) = strip s.
Proof.
  intros H. unfold trim_spec.
  destruct (unwrap (strip s)) as [body|] eqn:U; [|reflexivity].
  apply unwrap_inv in U. destruct (H body U).
Qed.

(** C1: along every chain of builder calls from [construct()], a
    response whose directives contain a "VideoApp.Launch" directive has
    [should_end_session] unset.  In particular [add_directive] of such a
    directive leaves it unset at once, whatever it was, and it stays
    unset (and the directive stays present) through every later call. *)
Theorem video_app_launch_keeps_session_unset
    (cs : list Call) (d : option Directive) (more : list Call) :
  (__is_video_app_launch_directive_present (chain construct cs) = true ->
   should_end_session (response (chain construct cs)) = None) /\
  (is_video_app_launch d = true ->
   should_end_session
     (response (add_directive (chain construct cs) d)) = None /\
   __is_video_app_launch_directive_present
     (chain (add_directive (chain construct cs) d) more) = true /\
   should_end_session
     (response (chain (add_directive (chain construct cs) d) more))
   = None).
Proof.
  pose proof (invariant_chain cs construct invariant_construct) as I.
  split; [exact I|].
  intros Hd.
  assert (P : __is_video_app_launch_directive_present
                (add_directive (chain construct cs) d) = true)
    by (rewrite present_add_directive, Hd; apply orb_true_r).
  pose proof (invariant_call (chain construct cs) (AddDirective d) I) as I'.
  split; [exact (I' P)|].
  split; [apply present_chain; exact P|].
  apply (invariant_chain more _ I').
  apply present_chain; exact P.
Qed.

Lemma video_app_launch_keeps_session_unset_witness :
  __is_video_app_launch_directive_present
    (chain construct
       [AddDirective (Some launch_directive); Ask (Some (lit "hi"));
        SetShouldEndSession (Some true)]) = true /\
  should_end_session
    (response
       (chain construct
          [AddDirective (Some launch_directive); Ask (Some (lit "hi"));
           SetShouldEndSession (Some true)])) = None /\
  is_video_app_launch (Some launch_directive) = true /\
  should_end_session
    (response
       (add_directive
          (chain construct [SetShouldEndSession (Some true)])
          (Some launch_directive))) = None.
Proof.
  split; [reflexivity|].
  split.
  - apply (proj1 (video_app_launch_keeps_session_unset
                    [AddDirective (Some launch_directive);
                     Ask (Some (lit "hi"));
                     SetShouldEndSession (Some true)] None [])).
    reflexivity.
  - split; [reflexivity|].
    apply (proj2 (video_app_launch_keeps_session_unset
                    [SetShouldEndSession (Some true)]
                    (Some launch_directive) [])).
    reflexivity.
Defined.

(** C2: for every text [t], absent and empty included, [speak(t)]
    stores the SSML ["<speak>" + trim(t) + "</speak>"], [trim] being the
    trimming rule of the specification; [speak(None)] and [speak("")]
    store ["<speak></speak>"]; one outer tag pair only is removed. *)
Theorem speak_wraps_trimmed_text (self : ResponseFactory) (t : option str) :
  output_speech (response (speak self t))
  = Some {| ssml := SPEAK_OPEN ++ trim_spec t ++ SPEAK_CLOSE |} /\
  output_speech (response (speak self None))
  = Some {| ssml := lit "<speak></speak>" |} /\
  output_speech (response (speak self (Some [])))
  = Some {| ssml := lit "<speak></speak>" |} /\
  output_speech
    (response (speak self (Some (lit "<speak><speak>x</speak></speak>"))))
  = Some {| ssml := lit "<speak><speak>x</speak></speak>" |}.
Proof.
  split; [|repeat split; reflexivity].
  rewrite output_speech_speak, trim_refines. reflexivity.
Qed.

(** C4: for every text [t] and every state, [ask(t)] stores a reprompt
    whose speech is built as [speak] builds it.  If some entry of the
    directives is a directive whose [object_type] is "VideoApp.Launch",
    [should_end_session] is left as it was, whatever it was; if the
    directives are unset or hold no such entry, it becomes false,
    whatever it was. *)
Theorem ask_sets_reprompt_and_keeps_session_open
    (self : ResponseFactory) (t : option str) :
  reprompt (response (ask self t))
  = Some {| reprompt_output_speech :=
              {| ssml := SPEAK_OPEN ++ trim_spec t ++ SPEAK_CLOSE |} |} /\
  option_map reprompt_output_speech (reprompt (response (ask self t)))
  = output_speech (response (speak self t)) /\
  should_end_session (response (ask self t))
  = (if __is_video_app_launch_directive_present self
     then should_end_session (response self)
     else Some false) /\
  (forall ds d,
     directives (response self) = Some ds ->
     In (Some d) ds ->
     object_type d = Some VIDEO_APP_LAUNCH ->
     should_end_session (response (ask self t))
     = should_end_session (response self)) /\
  ((forall ds d,
      directives (response self) = Some ds ->
      In (Some d) ds ->
      object_type d <> Some VIDEO_APP_LAUNCH) ->
   should_end_session (response (ask self t)) = Some false).
Proof.
  split; [rewrite reprompt_ask, trim_refines; reflexivity|].
  split; [rewrite reprompt_ask; reflexivity|].
  split; [apply session_ask|].
  split.
  - intros ds d D I T.
    assert (P : __is_video_app_launch_directive_present self = true).
    { unfold __is_video_app_launch_directive_present. rewrite D.
      apply scan_directives_true. exists d; split; assumption. }
    rewrite session_ask, P. reflexivity.
  - intros N.
    assert (P : __is_video_app_launch_directive_present self = false).
    { unfold __is_video_app_launch_directive_present.
      destruct (directives (response self)) as [ds|] eqn:D;
        [|reflexivity].
      destruct (scan_directives ds) eqn:S; [|reflexivity].
      apply scan_directives_true in S as (d & I & T).
      destruct (N ds d eq_refl I T). }
    rewrite session_ask, P. reflexivity.
Qed.

Lemma ask_sets_reprompt_and_keeps_session_open_witness :
  should_end_session
    (response
       (ask {| response :=
                 {| output_speech := None; card := None; reprompt := None;
                    directives := Some [None; Some launch_directive];
                    should_end_session := Some true |} |}
            (Some (lit "hi"))))
  = Some true /\
  should_end_session
    (response
       (ask (set_should_end_session
               (add_directive construct None) (Some true))
            (Some (lit "hi"))))
  = Some false.
Proof.
  split.
  - apply (proj1 (proj2 (proj2 (proj2
             (ask_sets_reprompt_and_keeps_session_open
                {| response :=
                     {| output_speech := None; card := None;
                        reprompt := None;
                        directives := Some [None; Some launch_directive];
                        should_end_session := Some true |} |}
                (Some (lit "hi"))))))
           [None; Some launch_directive] launch_directive).
    + reflexivity.
    + right; left; reflexivity.
    + reflexivity.
  - apply (proj2 (proj2 (proj2 (proj2
             (ask_sets_reprompt_and_keeps_session_open
                (set_should_end_session
                   (add_directive construct None) (Some true))
                (Some (lit "hi"))))))).
    intros ds d D I T. inversion D; subst ds.
    destruct I as [I | []]; discriminate I.
Defined.

(** C5: a speech string that, whitespace around it apart, is already
    [<speak>body</speak>] is stored by [speak] and by [ask] with one tag
    pair, never with a second pair around the first; what [speak] has
    stored, given to [speak] again, is stored as it is;
    [speak("<speak>hello</speak>")] and [speak("hello")] store the same
    ["<speak>hello</speak>"]. *)
Theorem wrapped_speech_is_not_wrapped_again
    (self : ResponseFactory) (s body : str) (t : option str) :
  strip s = SPEAK_OPEN ++ body ++ SPEAK_CLOSE ->
  output_speech (response (speak self (Some s)))
  = Some {| ssml := SPEAK_OPEN ++ strip body ++ SPEAK_CLOSE |} /\
  reprompt (response (ask self (Some s)))
  = Some {| reprompt_output_speech :=
              {| ssml := SPEAK_OPEN ++ strip body ++ SPEAK_CLOSE |} |} /\
  output_speech (response (speak self (Some s)))
  <> Some {| ssml := SPEAK_OPEN ++ strip s ++ SPEAK_CLOSE |} /\
  output_speech
    (response
       (speak self (Some (speak_format (__trim_outputspeech t)))))
  = Some {| ssml := speak_format (__trim_outputspeech t) |} /\
  speak self (Some (lit "<speak>hello</speak>"))
  = speak self (Some (lit "hello")) /\
  output_speech (response (speak self (Some (lit "hello"))))
  = Some {| ssml := lit "<speak>hello</speak>" |}.
Proof.
  intros H.
  assert (S : output_speech (response (speak self (Some s)))
              = Some {| ssml := SPEAK_OPEN ++ strip body ++ SPEAK_CLOSE |})
    by (rewrite output_speech_speak, (trim_wrapped s body H);
        reflexivity).
  split; [exact S|].
  split.
  - rewrite reprompt_ask, (trim_wrapped s body H). reflexivity.
  - split;
      [|split;
        [rewrite output_speech_speak, trim_speak_format; reflexivity
        |split; reflexivity]].
    rewrite S, H. intros E.
    assert (L : length (SPEAK_OPEN ++ strip body ++ SPEAK_CLOSE)
                = length (SPEAK_OPEN ++ (SPEAK_OPEN ++ body ++ SPEAK_CLOSE)
                            ++ SPEAK_CLOSE))
      by (inversion E as [E']; rewrite E'; reflexivity).
    rewrite !length_app in L.
    pose proof (strip_length body).
    change (length SPEAK_OPEN) with 7 in L.
    change (length SPEAK_CLOSE) with 8 in L.
    lia.
Qed.

Lemma wrapped_speech_is_not_wrapped_again_witness :
  strip (lit "  <speak> hi </speak> ")
  = SPEAK_OPEN ++ lit " hi " ++ SPEAK_CLOSE /\
  output_speech
    (response (speak construct (Some (lit "  <speak> hi </speak> "))))
  = Some {| ssml := lit "<speak>hi</speak>" |}.
Proof.
  split; [reflexivity|].
  apply (proj1 (wrapped_speech_is_not_wrapped_again
                  construct (lit "  <speak> hi </speak> ") (lit " hi ")
                  None eq_refl)).
Defined.

(** C3: [get_text_content] raises exactly when some text is non-empty
    and its type tag is neither "PlainText" nor "RichText"; the error is
    a [ValueError] whose message ends with the tag of the first such
    field.  [get_text_content("x", "bogus")] raises with a message
    naming "bogus"; a bad tag next to an absent or empty text raises
    nothing; the plain and rich helpers never raise. *)
Theorem invalid_text_type_is_the_only_error
    (p : option str) (pt : str) (s : option str) (st : str)
    (t : option str) (tt : str) :
  ((exists e, get_text_content p pt s st t tt = Raise e) <->
   (nonempty p /\ ~ valid_tag pt) \/ (nonempty s /\ ~ valid_tag st) \/
   (nonempty t /\ ~ valid_tag tt)) /\
  (forall e, get_text_content p pt s st t tt = Raise e ->
     exists tag,
       e = ValueError (lit "Invalid type provided: " ++ tag) /\
       ~ valid_tag tag /\
       ((nonempty p /\ tag = pt) \/ (nonempty s /\ tag = st) \/
        (nonempty t /\ tag = tt))) /\
  get_text_content (Some (lit "x")) (lit "bogus")
    None PLAIN_TEXT_TYPE None PLAIN_TEXT_TYPE
  = Raise (ValueError (lit "Invalid type provided: bogus")) /\
  get_text_content None (lit "bogus") (Some []) (lit "bogus")
    None (lit "bogus")
  = Return {| primary_text := None; secondary_text := None;
              tertiary_text := None |} /\
  (exists tc, get_plain_text_content p s t = Return tc) /\
  (exists tc, get_rich_text_content p s t = Return tc).
Proof.
  split; [|split; [|split; [reflexivity|split; [reflexivity|]]]].
  - rewrite get_text_content_outcome.
    destruct (first_offending p pt s st t tt) as [tag|] eqn:F.
    + split; [intros _|intros _; eexists; reflexivity].
      destruct (first_offending_some _ _ _ _ _ _ _ F)
        as [V [[N ->] | [[N ->] | [N ->]]]]; auto.
    + apply first_offending_none in F as (P & S & T).
      split; [intros [e E]; discriminate|].
      rewrite <- !offending_iff, P, S, T.
      intros [H | [H | H]]; discriminate.
  - intros e. rewrite get_text_content_outcome.
    destruct (first_offending p pt s st t tt) as [tag|] eqn:F;
      [|discriminate].
    intros E; inversion E; subst e.
    exists tag; split; [reflexivity|].
    exact (first_offending_some _ _ _ _ _ _ _ F).
  - unfold get_plain_text_content, get_rich_text_content.
    rewrite !get_text_content_outcome.
    assert (O : forall x tag, recognized tag = true ->
                  offending x tag = false)
      by (intros x tag R; unfold offending; rewrite R;
          apply andb_false_r).
    unfold first_offending.
    rewrite !(O _ PLAIN_TEXT_TYPE eq_refl), !(O _ RICH_TEXT_TYPE eq_refl).
    split; eexists; reflexivity.
Qed.

Lemma invalid_text_type_is_the_only_error_witness :
  (nonempty (Some (lit "x")) /\ ~ valid_tag (lit "bogus")) /\
  exists e,
    get_text_content (Some (lit "x")) (lit "bogus")
      None PLAIN_TEXT_TYPE None PLAIN_TEXT_TYPE = Raise e.
Proof.
  assert (H : nonempty (Some (lit "x")) /\ ~ valid_tag (lit "bogus")).
  { split.
    - eexists; eexists; reflexivity.
    - intros [E | E]; discriminate E. }
  split; [exact H|].
  apply (proj1 (invalid_text_type_is_the_only_error
                  (Some (lit "x")) (lit "bogus")
                  None PLAIN_TEXT_TYPE None PLAIN_TEXT_TYPE)).
  left; exact H.
Defined.

(** C6: when every non-empty text comes with a recognized tag,
    [get_text_content] returns a [TextContent] in which, for each of the
    three pairs, an absent or empty text leaves the field unset and a
    non-empty text gives a [PlainText] or a [RichText], after the tag,
    that carries the text as supplied. *)
Theorem text_fields_follow_text_and_type
    (p : option str) (pt : str) (s : option str) (st : str)
    (t : option str) (tt : str) :
  (p = None \/ p = Some [] \/ valid_tag pt) ->
  (s = None \/ s = Some [] \/ valid_tag st) ->
  (t = None \/ t = Some [] \/ valid_tag tt) ->
  exists tc,
    get_text_content p pt s st t tt = Return tc /\
    field_ok p pt (primary_text tc) /\
    field_ok s st (secondary_text tc) /\
    field_ok t tt (tertiary_text tc).
Proof.
  assert (O : forall x tag,
            x = None \/ x = Some [] \/ valid_tag tag ->
            offending x tag = false).
  { intros x tag [-> | [-> | V]]; try reflexivity.
    unfold offending. apply recognized_valid in V. rewrite V.
    apply andb_false_r. }
  intros Hp Hs Ht.
  rewrite get_text_content_outcome.
  unfold first_offending. rewrite (O _ _ Hp), (O _ _ Hs), (O _ _ Ht).
  eexists; split; [reflexivity|].
  cbn [primary_text secondary_text tertiary_text].
  split; [|split]; apply expected_field_ok.
Qed.

Lemma text_fields_follow_text_and_type_witness :
  (Some (lit "a") = None \/ Some (lit "a") = Some [] \/
   valid_tag RICH_TEXT_TYPE) /\
  (Some ([] : str) = None \/ Some [] = Some ([] : str) \/ valid_tag (lit "bogus")) /\
  (@None str = None \/ None = Some ([] : str) \/ valid_tag PLAIN_TEXT_TYPE) /\
  exists tc,
    get_text_content (Some (lit "a")) RICH_TEXT_TYPE
      (Some []) (lit "bogus") None PLAIN_TEXT_TYPE = Return tc /\
    field_ok (Some (lit "a")) RICH_TEXT_TYPE (primary_text tc) /\
    field_ok (Some []) (lit "bogus") (secondary_text tc) /\
    field_ok None PLAIN_TEXT_TYPE (tertiary_text tc).
Proof.
  assert (H1 : Some (lit "a") = None \/ Some (lit "a") = Some [] \/
               valid_tag RICH_TEXT_TYPE)
    by (right; right; right; reflexivity).
  assert (H2 : Some ([] : str) = None \/ Some [] = Some ([] : str) \/
               valid_tag (lit "bogus"))
    by (right; left; reflexivity).
  assert (H3 : @None str = None \/ None = Some ([] : str) \/
               valid_tag PLAIN_TEXT_TYPE)
    by (left; reflexivity).
  split; [exact H1|]. split; [exact H2|]. split; [exact H3|].
  exact (text_fields_follow_text_and_type
           (Some (lit "a")) RICH_TEXT_TYPE (Some []) (lit "bogus")
           None PLAIN_TEXT_TYPE H1 H2 H3).
Defined.

(** C7: [get_plain_text_content] is [get_text_content] with the three
    tags "PlainText", and every field it sets is a [PlainText];
    [get_rich_text_content] is [get_text_content] with the three tags
    "RichText", and every field it sets is a [RichText]. *)
Theorem plain_and_rich_helpers_tag_every_field
    (p s t : option str) :
  get_plain_text_content p s t
  = get_text_content p PLAIN_TEXT_TYPE s PLAIN_TEXT_TYPE
      t PLAIN_TEXT_TYPE /\
  get_rich_text_content p s t
  = get_text_content p RICH_TEXT_TYPE s RICH_TEXT_TYPE t RICH_TEXT_TYPE /\
  get_plain_text_content p s t
  = Return {| primary_text := tagged PlainText p;
              secondary_text := tagged PlainText s;
              tertiary_text := tagged PlainText t |} /\
  get_rich_text_content p s t
  = Return {| primary_text := tagged RichText p;
              secondary_text := tagged RichText s;
              tertiary_text := tagged RichText t |} /\
  get_plain_text_content (Some (lit "a")) (Some (lit "b")) None
  = Return {| primary_text := Some (PlainText (lit "a"));
              secondary_text := Some (PlainText (lit "b"));
              tertiary_text := None |}.
Proof.
  split; [reflexivity|]. split; [reflexivity|].
  split; [|split; [|reflexivity]];
    destruct p as [[|? ?]|], s as [[|? ?]|], t as [[|? ?]|]; reflexivity.
Qed.

(** ** Directives and frames *)

Lemma directives_add_directive (self : ResponseFactory)
    (d : option Directive) :
  directives (response (add_directive self d))
  = Some (directive_list self ++ [d]).
Proof. reflexivity. Qed.

Lemma directive_list_add_directive (self : ResponseFactory)
    (d : option Directive) :
  directive_list (add_directive self d) = directive_list self ++ [d].
Proof. reflexivity. Qed.

Lemma directives_add_all (ds : list (option Directive))
    (self : ResponseFactory) (d : option Directive) :
  directives (response (chain self (map AddDirective (d :: ds))))
  = Some (directive_list self ++ d :: ds).
Proof.
  revert self d; induction ds as [|x ds IH]; intros self d.
  - reflexivity.
  - change (chain self (map AddDirective (d :: x :: ds)))
      with (chain (add_directive self d) (map AddDirective (x :: ds))).
    rewrite IH, directive_list_add_directive, <- app_assoc.
    reflexivity.
Qed.

(** C8: [add_directive(d)] puts [d] at the end of the directives, an
    unset sequence counting as empty; calls keep their order and
    duplicates stay, so that adding A, B, A gives [A, B, A]. *)
Theorem add_directive_appends_in_order
    (self : ResponseFactory) (d : option Directive)
    (ds : list (option Directive)) (A B : option Directive) :
  directives (response (add_directive self d))
  = Some (match directives (response self) with
          | None => []
          | Some l => l
          end ++ [d]) /\
  directives (response (chain self (map AddDirective (d :: ds))))
  = Some (directive_list self ++ d :: ds) /\
  directives
    (response
       (chain construct [AddDirective A; AddDirective B; AddDirective A]))
  = Some [A; B; A].
Proof.
  split; [reflexivity|]. split; [|reflexivity].
  apply directives_add_all.
Qed.

(** C9: each builder method leaves the fields it is not about as they
    were: [speak] writes [output_speech] only, [set_card] writes [card]
    only, [ask] writes [reprompt] and [should_end_session] only,
    [add_directive] writes [directives] and [should_end_session] only,
    [set_should_end_session] writes [should_end_session] only. *)
Theorem builder_methods_frame
    (self : ResponseFactory) (t : option str) (k : option Card)
    (d : option Directive) (v : option bool) :
  (card (response (speak self t)) = card (response self) /\
   reprompt (response (speak self t)) = reprompt (response self) /\
   directives (response (speak self t)) = directives (response self) /\
   should_end_session (response (speak self t))
   = should_end_session (response self)) /\
  (output_speech (response (set_card self k))
   = output_speech (response self) /\
   reprompt (response (set_card self k)) = reprompt (response self) /\
   directives (response (set_card self k)) = directives (response self) /\
   should_end_session (response (set_card self k))
   = should_end_session (response self)) /\
  (output_speech (response (ask self t))
   = output_speech (response self) /\
   card (response (ask self t)) = card (response self) /\
   directives (response (ask self t)) = directives (response self)) /\
  (output_speech (response (add_directive self d))
   = output_speech (response self) /\
   card (response (add_directive self d)) = card (response self) /\
   reprompt (response (add_directive self d))
   = reprompt (response self)) /\
  (output_speech (response (set_should_end_session self v))
   = output_speech (response self) /\
   card (response (set_should_end_session self v))
   = card (response self) /\
   reprompt (response (set_should_end_session self v))
   = reprompt (response self) /\
   directives (response (set_should_end_session self v))
   = directives (response self)).
Proof.
  split; [repeat split|].
  split; [repeat split|].
  split; [unfold ask; destruct (negb _); repeat split|].
  split;
    [unfold add_directive; destruct (is_video_app_launch d); repeat split|].
  unfold set_should_end_session; destruct (negb _); repeat split.
Qed.

(** C10: [add_directive(None)] puts [None] at the end of the
    directives and leaves [should_end_session] as it was; the presence
    check skips [None] entries, so that they change nothing in what
    [ask] and [set_should_end_session] do to [should_end_session]. *)
Theorem absent_directive_is_appended_and_skipped
    (self : ResponseFactory) (t : option str) (v : option bool)
    (ds1 ds2 : list (option Directive)) :
  directives (response (add_directive self None))
  = Some (directive_list self ++ [None]) /\
  should_end_session (response (add_directive self None))
  = should_end_session (response self) /\
  scan_directives (ds1 ++ None :: ds2) = scan_directives (ds1 ++ ds2) /\
  __is_video_app_launch_directive_present (add_directive self None)
  = __is_video_app_launch_directive_present self /\
  should_end_session (response (ask (add_directive self None) t))
  = should_end_session (response (ask self t)) /\
  should_end_session
    (response (set_should_end_session (add_directive self None) v))
  = should_end_session (response (set_should_end_session self v)).
Proof.
  assert (P : __is_video_app_launch_directive_present
                (add_directive self None)
              = __is_video_app_launch_directive_present self)
    by (rewrite present_add_directive; apply orb_false_r).
  split; [reflexivity|]. split; [reflexivity|].
  split; [rewrite !scan_directives_app; reflexivity|].
  split; [exact P|].
  rewrite !session_ask, !session_set_should_end_session, P.
  split; reflexivity.
Qed.

(** * Further properties of the builder *)

(** ** One call *)

Lemma directive_list_call (self : ResponseFactory) (c : Call) :
  directive_list (call self c)
  = directive_list self
    ++ match c with AddDirective d => [d] | _ => [] end.
Proof.
  unfold directive_list.
  destruct c as [t|t|k|d|v]; cbn [call].
  - symmetry; apply app_nil_r.
  - rewrite directives_ask. symmetry; apply app_nil_r.
  - symmetry; apply app_nil_r.
  - reflexivity.
  - rewrite directives_set_should_end_session. symmetry; apply app_nil_r.
Qed.

Lemma directives_call_unset (self : ResponseFactory) (c : Call) :
  directives (response (call self c))
  = match c with
    | AddDirective d => Some (directive_list self ++ [d])
    | _ => directives (response self)
    end.
Proof.
  destruct c as [t|t|k|d|v]; cbn [call].
  - reflexivity.
  - apply directives_ask.
  - reflexivity.
  - reflexivity.
  - apply directives_set_should_end_session.
Qed.

Lemma output_speech_call (self : ResponseFactory) (c : Call) :
  output_speech (response (call self c))
  = match writes_output_speech c with
    | Some a => a
    | None => output_speech (response self)
    end.
Proof.
  destruct c as [t|t|k|d|v]; cbn [call writes_output_speech];
    try reflexivity.
  - unfold ask. destruct (negb _); reflexivity.
  - unfold add_directive. destruct (is_video_app_launch d); reflexivity.
  - unfold set_should_end_session. destruct (negb _); reflexivity.
Qed.

Lemma card_call (self : ResponseFactory) (c : Call) :
  card (response (call self c))
  = match writes_card c with
    | Some a => a
    | None => card (response self)
    end.
Proof.
  destruct c as [t|t|k|d|v]; cbn [call writes_card]; try reflexivity.
  - unfold ask. destruct (negb _); reflexivity.
  - unfold add_directive. destruct (is_video_app_launch d); reflexivity.
  - unfold set_should_end_session. destruct (negb _); reflexivity.
Qed.

Lemma reprompt_call (self : ResponseFactory) (c : Call) :
  reprompt (response (call self c))
  = match writes_reprompt c with
    | Some a => a
    | None => reprompt (response self)
    end.
Proof.
  destruct c as [t|t|k|d|v]; cbn [call writes_reprompt]; try reflexivity.
  - apply reprompt_ask.
  - unfold add_directive. destruct (is_video_app_launch d); reflexivity.
  - unfold set_should_end_session. destruct (negb _); reflexivity.
Qed.

Lemma present_call_eq (self : ResponseFactory) (c : Call) :
  __is_video_app_launch_directive_present (call self c)
  = __is_video_app_launch_directive_present self
    || match c with
       | AddDirective d => is_video_app_launch d
       | _ => false
       end.
Proof.
  destruct c as [t|t|k|d|v]; cbn [call].
  - symmetry; apply orb_false_r.
  - rewrite (present_ext _ self) by apply directives_ask.
    symmetry; apply orb_false_r.
  - symmetry; apply orb_false_r.
  - apply present_add_directive.
  - rewrite (present_ext _ self)
      by apply directives_set_should_end_session.
    symmetry; apply orb_false_r.
Qed.

Lemma session_call (self : ResponseFactory) (c : Call) :
  __is_video_app_launch_directive_present (call self c) = false ->
  should_end_session (response (call self c))
  = match writes_session c with
    | Some a => a
    | None => should_end_session (response self)
    end.
Proof.
  rewrite present_call_eq. intros H.
  apply orb_false_iff in H as [P L].
  destruct c as [t|t|k|d|v]; cbn [call writes_session].
  - reflexivity.
  - rewrite session_ask, P; reflexivity.
  - reflexivity.
  - rewrite session_add_directive, L; reflexivity.
  - rewrite session_set_should_end_session, P; reflexivity.
Qed.

Lemma present_chain_false (cs : list Call) (self : ResponseFactory) :
  __is_video_app_launch_directive_present (chain self cs) = false ->
  __is_video_app_launch_directive_present self = false.
Proof.
  intros H.
  destruct (__is_video_app_launch_directive_present self) eqn:E;
    [|reflexivity].
  rewrite (present_chain cs self E) in H. discriminate.
Qed.

(** ** Chains *)

Lemma directive_list_chain (cs : list Call) (self : ResponseFactory) :
  directive_list (chain self cs) = directive_list self ++ added cs.
Proof.
  revert self; induction cs as [|c cs IH]; intros self.
  - symmetry; apply app_nil_r.
  - change (chain self (c :: cs)) with (chain (call self c) cs).
    rewrite IH, directive_list_call, <- app_assoc.
    destruct c; reflexivity.
Qed.

Lemma directives_chain (cs : list Call) (self : ResponseFactory) :
  directives (response (chain self cs))
  = match added cs with
    | [] => directives (response self)
    | _ :: _ => Some (directive_list self ++ added cs)
    end.
Proof.
  revert self; induction cs as [|c cs IH]; intros self.
  - reflexivity.
  - change (chain self (c :: cs)) with (chain (call self c) cs).
    rewrite IH, directives_call_unset, directive_list_call.
    destruct c as [t|t|k|d|v]; cbn [added];
      try (rewrite app_nil_r; reflexivity).
    rewrite <- app_assoc.
    destruct (added cs); reflexivity.
Qed.

(** X1: no builder method removes or reorders a directive.  After any
    chain of calls the directives are those that were there, followed
    by the arguments of the [add_directive] calls in call order; from
    [construct()] the sequence stays unset as long as [add_directive]
    was not called. *)
Theorem chain_directives_are_the_added_ones
    (self : ResponseFactory) (cs : list Call) :
  directive_list (chain self cs) = directive_list self ++ added cs /\
  directives (response (chain construct cs))
  = match added cs with
    | [] => None
    | d :: ds => Some (d :: ds)
    end.
Proof.
  split; [apply directive_list_chain|].
  rewrite directives_chain. destruct (added cs); reflexivity.
Qed.

(** X2: for [output_speech], [card] and [reprompt] the last write
    wins, whatever calls come between: after a chain the field holds
    what the last [speak], [set_card] or [ask] of the chain stored, and
    its earlier value when the chain has no such call. *)
Theorem last_speak_card_and_ask_win
    (self : ResponseFactory) (cs : list Call) :
  output_speech (response (chain self cs))
  = last_write writes_output_speech cs (output_speech (response self)) /\
  card (response (chain self cs))
  = last_write writes_card cs (card (response self)) /\
  reprompt (response (chain self cs))
  = last_write writes_reprompt cs (reprompt (response self)).
Proof.
  revert self; induction cs as [|c cs IH]; intros self.
  - repeat split.
  - change (chain self (c :: cs)) with (chain (call self c) cs).
    destruct (IH (call self c)) as (O & K & R).
    rewrite O, K, R, output_speech_call, card_call, reprompt_call.
    repeat split.
Qed.

(** X3: while no "VideoApp.Launch" directive is among the directives,
    [should_end_session] is what the last [ask] (false) or
    [set_should_end_session] (its argument) of the chain wrote, and its
    earlier value when the chain has neither. *)
Theorem without_launch_last_session_write_wins
    (self : ResponseFactory) (cs : list Call) :
  __is_video_app_launch_directive_present (chain self cs) = false ->
  should_end_session (response (chain self cs))
  = last_write writes_session cs (should_end_session (response self)).
Proof.
  revert self; induction cs as [|c cs IH]; intros self H.
  - reflexivity.
  - change (chain self (c :: cs)) with (chain (call self c) cs) in *.
    rewrite (IH _ H), session_call; [reflexivity|].
    exact (present_chain_false cs _ H).
Qed.

Lemma without_launch_last_session_write_wins_witness :
  __is_video_app_launch_directive_present
    (chain construct
       [SetShouldEndSession (Some true); AddDirective None;
        Ask (Some (lit "more?")); Speak None]) = false /\
  should_end_session
    (response
       (chain construct
          [SetShouldEndSession (Some true); AddDirective None;
           Ask (Some (lit "more?")); Speak None])) = Some false.
Proof.
  split; [reflexivity|].
  exact (without_launch_last_session_write_wins construct
           [SetShouldEndSession (Some true); AddDirective None;
            Ask (Some (lit "more?")); Speak None] eq_refl).
Defined.

Lemma session_call_origin (self : ResponseFactory) (c : Call) (b : bool) :
  should_end_session (response (call self c)) = Some b ->
  should_end_session (response self) = Some b \/
  c = SetShouldEndSession (Some b) \/
  (b = false /\ exists t, c = Ask t).
Proof.
  destruct c as [t|t|k|d|v]; cbn [call].
  - auto.
  - rewrite session_ask.
    destruct (__is_video_app_launch_directive_present self); [auto|].
    intros H; inversion H. right; right; split; [reflexivity|].
    exists t; reflexivity.
  - auto.
  - rewrite session_add_directive.
    destruct (is_video_app_launch d); [discriminate | auto].
  - rewrite session_set_should_end_session.
    destruct (__is_video_app_launch_directive_present self); [auto|].
    intros ->. right; left; reflexivity.
Qed.

Lemma session_chain_origin (cs : list Call) (self : ResponseFactory)
    (b : bool) :
  should_end_session (response (chain self cs)) = Some b ->
  should_end_session (response self) = Some b \/
  In (SetShouldEndSession (Some b)) cs \/
  (b = false /\ exists t, In (Ask t) cs).
Proof.
  revert self; induction cs as [|c cs IH]; intros self H.
  - left; exact H.
  - change (chain self (c :: cs)) with (chain (call self c) cs) in H.
    destruct (IH _ H) as [H1 | [H1 | [H1 [t H2]]]].
    + destruct (session_call_origin self c b H1)
        as [H2 | [H2 | [H2 [t H3]]]].
      * left; exact H2.
      * right; left; left; exact H2.
      * right; right; split; [exact H2|].
        exists t; left; exact H3.
    + right; left; right; exact H1.
    + right; right; split; [exact H1|]. exists t; right; exact H2.
Qed.

(** X4: the builder never ends or keeps a session on its own.  From
    [construct()], [should_end_session] is true only if
    [set_should_end_session(True)] was called, and false only if
    [set_should_end_session(False)] or [ask] was called. *)
Theorem session_value_comes_from_a_call (cs : list Call) (b : bool) :
  should_end_session (response (chain construct cs)) = Some b ->
  In (SetShouldEndSession (Some b)) cs \/
  (b = false /\ exists t, In (Ask t) cs).
Proof.
  intros H.
  destruct (session_chain_origin cs construct b H) as [H1 | H1];
    [discriminate H1 | exact H1].
Qed.

Lemma session_value_comes_from_a_call_witness :
  should_end_session
    (response
       (chain construct
          [Speak (Some (lit "bye")); SetShouldEndSession (Some true)]))
  = Some true /\
  (In (SetShouldEndSession (Some true))
      [Speak (Some (lit "bye")); SetShouldEndSession (Some true)] \/
   (true = false /\
    exists t,
      In (Ask t)
        [Speak (Some (lit "bye")); SetShouldEndSession (Some true)])).
Proof.
  split; [reflexivity|].
  exact (session_value_comes_from_a_call
           [Speak (Some (lit "bye")); SetShouldEndSession (Some true)]
           true eq_refl).
Defined.

(** ** Order of calls *)

Ltac unfold_methods :=
  unfold speak, ask, set_card, add_directive, set_should_end_session,
    __is_video_app_launch_directive_present;
  cbn [response directives set_output_speech set_card_attr set_reprompt
       set_directives set_should_end_session_attr negb].

(** X5: calls that are about different things can be exchanged.
    [speak] and [set_card] commute with every other method, and
    [add_directive] commutes with [ask] and with
    [set_should_end_session]: either order leaves the same response. *)
Theorem calls_on_different_fields_commute
    (self : ResponseFactory) (a t : option str) (k : option Card)
    (d : option Directive) (v : option bool) :
  ask (speak self a) t = speak (ask self t) a /\
  set_card (speak self a) k = speak (set_card self k) a /\
  add_directive (speak self a) d = speak (add_directive self d) a /\
  set_should_end_session (speak self a) v
  = speak (set_should_end_session self v) a /\
  ask (set_card self k) t = set_card (ask self t) k /\
  add_directive (set_card self k) d = set_card (add_directive self d) k /\
  set_should_end_session (set_card self k) v
  = set_card (set_should_end_session self v) k /\
  ask (add_directive self d) t = add_directive (ask self t) d /\
  set_should_end_session (add_directive self d) v
  = add_directive (set_should_end_session self v) d.
Proof.
  destruct self as [[o c r [l|] e]];
    repeat split; unfold_methods;
    rewrite ?scan_directives_app; cbn [scan_directives app];
    try destruct (scan_directives l);
    try destruct (is_video_app_launch d);
    reflexivity.
Qed.

(** X6: calling [speak], [set_card], [ask] or
    [set_should_end_session] again replaces what the earlier call of
    the same method did: the response is the one the later call alone
    gives. *)
Theorem later_call_replaces_earlier
    (self : ResponseFactory) (a b : option str) (k k' : option Card)
    (v v' : option bool) :
  speak (speak self a) b = speak self b /\
  set_card (set_card self k) k' = set_card self k' /\
  ask (ask self a) b = ask self b /\
  set_should_end_session (set_should_end_session self v) v'
  = set_should_end_session self v'.
Proof.
  destruct self as [[o c r [l|] e]];
    try destruct (scan_directives l) eqn:E;
    repeat split; unfold_methods;
    repeat (progress (cbn [response directives set_reprompt
                           set_should_end_session_attr negb];
                      rewrite ?E));
    reflexivity.
Qed.

(** ** Invariants along a chain *)

Lemma wrapped_once_format (t : option str) :
  wrapped_once {| ssml := speak_format (__trim_outputspeech t) |}.
Proof.
  exists (__trim_outputspeech t).
  split; [reflexivity | apply trim_stripped].
Qed.

Lemma speech_well_formed_call (self : ResponseFactory) (c : Call) :
  speech_well_formed self -> speech_well_formed (call self c).
Proof.
  intros [O R]. split.
  - intros o. rewrite output_speech_call.
    destruct c as [t|t|k|d|v]; cbn [writes_output_speech];
      try apply O.
    intros H; inversion H. apply wrapped_once_format.
  - intros x. rewrite reprompt_call.
    destruct c as [t|t|k|d|v]; cbn [writes_reprompt]; try apply R.
    intros H; inversion H. apply wrapped_once_format.
Qed.

(** X7: every speech the builder has stored, as [output_speech] or in
    the [reprompt], is one [<speak>]...[</speak>] pair around a text
    with no whitespace at either end, after any chain of calls from
    [construct()]. *)
Theorem stored_speech_is_well_formed (cs : list Call) :
  speech_well_formed (chain construct cs).
Proof.
  assert (G : forall self, speech_well_formed self ->
                speech_well_formed (chain self cs)).
  { induction cs as [|c cs IH]; intros self H; [exact H|].
    apply (IH (call self c)), speech_well_formed_call, H. }
  apply G. split; intros x H; discriminate H.
Qed.

Lemma stored_speech_is_well_formed_witness :
  wrapped_once {| ssml := lit "<speak>hi</speak>" |}.
Proof.
  apply (proj1 (stored_speech_is_well_formed
                  [Speak (Some (lit " <speak> hi </speak> "));
                   Ask None])).
  reflexivity.
Defined.

(** X8: the presence check answers true exactly when some entry of the
    directives is a directive whose [object_type] is "VideoApp.Launch",
    wherever it stands in the sequence; an unset sequence has none. *)
Theorem presence_check_finds_a_launch_directive (self : ResponseFactory) :
  __is_video_app_launch_directive_present self = true <->
  exists d,
    In (Some d) (directive_list self) /\
    object_type d = Some VIDEO_APP_LAUNCH.
Proof.
  rewrite present_directive_list. apply scan_directives_true.
Qed.

Lemma presence_check_finds_a_launch_directive_witness :
  __is_video_app_launch_directive_present
    (chain construct
       [AddDirective None; AddDirective (Some launch_directive);
        AddDirective None]) = true.
Proof.
  apply (proj2 (presence_check_finds_a_launch_directive
                  (chain construct
                     [AddDirective None;
                      AddDirective (Some launch_directive);
                      AddDirective None]))).
  exists launch_directive. split; [right; left; reflexivity | reflexivity].
Defined.

(** * Further properties of the trimming *)

Lemma lstrip_head (s : str) (c : char) (r : str) :
  lstrip s = c :: r -> isspace c = false.
Proof.
  induction s as [|x s IH]; simpl; [discriminate|].
  destruct (isspace x) eqn:E; [exact IH|].
  intros H; inversion H; subst; exact E.
Qed.

Lemma strip_head (s : str) (c : char) (r : str) :
  strip s = c :: r -> isspace c = false.
Proof.
  intros H.
  assert (L : lstrip (strip s) = strip s)
    by (apply lstrip_rstrip, lstrip_idem).
  rewrite H in L. exact (lstrip_head _ _ _ L).
Qed.

Lemma strip_last (s : str) (r : str) (c : char) :
  strip s = r ++ [c] -> isspace c = false.
Proof.
  unfold strip, rstrip. intros H.
  apply (f_equal (@rev char)) in H.
  rewrite rev_involutive, rev_app_distr in H.
  exact (lstrip_head _ _ _ H).
Qed.

Lemma trim_is_strip (t : option str) :
  exists x, __trim_outputspeech t = strip x.
Proof.
  destruct t as [s|]; [|exists []; reflexivity].
  unfold __trim_outputspeech.
  destruct (_ && _); eexists; reflexivity.
Qed.

Lemma lstrip_blank (w : str) : blank w = true -> lstrip w = [].
Proof.
  induction w as [|c w IH]; simpl; [reflexivity|].
  destruct (isspace c); [exact IH | discriminate].
Qed.

Lemma lstrip_blank_app (w s : str) :
  blank w = true -> lstrip (w ++ s) = lstrip s.
Proof.
  induction w as [|c w IH]; simpl; [reflexivity|].
  destruct (isspace c); [exact IH | discriminate].
Qed.

Lemma blank_rev (w : str) : blank w = true -> blank (rev w) = true.
Proof.
  unfold blank. rewrite !forallb_forall.
  intros H c I. apply H, in_rev, I.
Qed.

Lemma rstrip_app_blank (s w : str) :
  blank w = true -> rstrip (s ++ w) = rstrip s.
Proof.
  intros H. unfold rstrip.
  rewrite rev_app_distr, lstrip_blank_app by (apply blank_rev, H).
  reflexivity.
Qed.

Lemma strip_app_blank (s w : str) :
  blank w = true -> strip (s ++ w) = strip s.
Proof.
  intros H. unfold strip.
  induction s as [|c s IH]; simpl.
  - rewrite (lstrip_blank w H). reflexivity.
  - destruct (isspace c); [exact IH|].
    exact (rstrip_app_blank (c :: s) w H).
Qed.

Lemma strip_blank_around (w1 s w2 : str) :
  blank w1 = true -> blank w2 = true ->
  strip (w1 ++ s ++ w2) = strip s.
Proof.
  intros H1 H2. rewrite app_assoc, (strip_app_blank _ w2 H2).
  unfold strip. rewrite (lstrip_blank_app w1 s H1). reflexivity.
Qed.

(** X9: the text that [__trim_outputspeech] returns neither begins nor
    ends with a whitespace character, whether or not a tag pair was
    removed. *)
Theorem trimmed_speech_has_no_outer_whitespace
    (t : option str) (c : char) (r : str) :
  (__trim_outputspeech t = c :: r -> isspace c = false) /\
  (__trim_outputspeech t = r ++ [c] -> isspace c = false).
Proof.
  destruct (trim_is_strip t) as [x ->].
  split; [apply strip_head | apply strip_last].
Qed.

Lemma trimmed_speech_has_no_outer_whitespace_witness :
  __trim_outputspeech (Some (lit " <speak> a b </speak> "))
  = 97%N :: lit " b" /\
  isspace 97%N = false /\
  __trim_outputspeech (Some (lit " <speak> a b </speak> "))
  = lit "a " ++ [98%N] /\
  isspace 98%N = false.
Proof.
  split; [reflexivity|]. split.
  - apply (proj1 (trimmed_speech_has_no_outer_whitespace
                    (Some (lit " <speak> a b </speak> ")) 97%N (lit " b"))).
    reflexivity.
  - split; [reflexivity|].
    apply (proj2 (trimmed_speech_has_no_outer_whitespace
                    (Some (lit " <speak> a b </speak> ")) 98%N (lit "a "))).
    reflexivity.
Defined.

(** X10: whitespace before and after the speech does not count: with
    [w1] and [w2] of whitespace only, [speak] and [ask] of
    [w1 + s + w2] leave the response that [speak] and [ask] of [s]
    leave. *)
Theorem surrounding_whitespace_is_ignored
    (self : ResponseFactory) (w1 s w2 : str) :
  blank w1 = true -> blank w2 = true ->
  speak self (Some (w1 ++ s ++ w2)) = speak self (Some s) /\
  ask self (Some (w1 ++ s ++ w2)) = ask self (Some s).
Proof.
  intros H1 H2.
  assert (T : __trim_outputspeech (Some (w1 ++ s ++ w2))
              = __trim_outputspeech (Some s))
    by (unfold __trim_outputspeech;
        rewrite (strip_blank_around w1 s w2 H1 H2); reflexivity).
  unfold speak, ask. rewrite T. split; reflexivity.
Qed.

Lemma surrounding_whitespace_is_ignored_witness :
  blank [9; 32]%N = true /\ blank [10; 160]%N = true /\
  speak construct (Some ([9; 32]%N ++ lit "hi" ++ [10; 160]%N))
  = speak construct (Some (lit "hi")) /\
  ask construct (Some ([9; 32]%N ++ lit "hi" ++ [10; 160]%N))
  = ask construct (Some (lit "hi")).
Proof.
  split; [reflexivity|]. split; [reflexivity|].
  exact (surrounding_whitespace_is_ignored construct
           [9; 32]%N (lit "hi") [10; 160]%N eq_refl eq_refl).
Defined.

(** X11: a speech of whitespace only is stored like an absent one:
    [speak] and [ask] then leave the response that [speak(None)] and
    [ask(None)] leave, with the SSML ["<speak></speak>"]. *)
Theorem blank_speech_is_stored_empty (self : ResponseFactory) (s : str) :
  blank s = true ->
  speak self (Some s) = speak self None /\
  ask self (Some s) = ask self None /\
  output_speech (response (speak self (Some s)))
  = Some {| ssml := lit "<speak></speak>" |}.
Proof.
  intros H.
  assert (T : __trim_outputspeech (Some s) = __trim_outputspeech None).
  { unfold __trim_outputspeech, strip.
    rewrite (lstrip_blank s H). reflexivity. }
  unfold speak, ask. rewrite T. repeat split.
Qed.

Lemma blank_speech_is_stored_empty_witness :
  blank (lit "   ") = true /\
  output_speech (response (speak construct (Some (lit "   "))))
  = Some {| ssml := lit "<speak></speak>" |}.
Proof.
  split; [reflexivity|].
  apply (blank_speech_is_stored_empty construct (lit "   ") eq_refl).
Defined.

(** X12: one tag pair at most is removed.  A text wrapped twice is
    stored as it was given, both pairs kept and nothing inside the
    inner pair touched. *)
Theorem speak_removes_one_tag_pair_only
    (self : ResponseFactory) (x : str) :
  output_speech
    (response (speak self (Some (speak_format (speak_format x)))))
  = Some {| ssml := speak_format (speak_format x) |} /\
  reprompt
    (response (ask self (Some (speak_format (speak_format x)))))
  = Some {| reprompt_output_speech :=
              {| ssml := speak_format (speak_format x) |} |}.
Proof.
  assert (T : __trim_outputspeech (Some (speak_format (speak_format x)))
              = speak_format x).
  { rewrite (trim_wrapped _ (speak_format x)).
    - apply strip_speak_format.
    - apply strip_speak_format. }
  rewrite output_speech_speak, reprompt_ask, T. split; reflexivity.
Qed.

(** * Further properties of the text content helpers *)

Lemma not_offending (text : option str) (tag : str) :
  ~ (nonempty text /\ ~ valid_tag tag) -> offending text tag = false.
Proof.
  intros H. apply not_true_iff_false.
  intros O. apply H, offending_iff, O.
Qed.

(** X13: the fields are checked in the order primary, secondary,
    tertiary, and the first non-empty text with a type that is not
    recognized decides the error: its type is the one in the message,
    whatever the later fields hold. *)
Theorem first_invalid_type_is_reported
    (p : option str) (pt : str) (s : option str) (st : str)
    (t : option str) (tt : str) :
  (nonempty p /\ ~ valid_tag pt ->
   get_text_content p pt s st t tt
   = Raise (ValueError (lit "Invalid type provided: " ++ pt))) /\
  (~ (nonempty p /\ ~ valid_tag pt) ->
   nonempty s /\ ~ valid_tag st ->
   get_text_content p pt s st t tt
   = Raise (ValueError (lit "Invalid type provided: " ++ st))) /\
  (~ (nonempty p /\ ~ valid_tag pt) ->
   ~ (nonempty s /\ ~ valid_tag st) ->
   nonempty t /\ ~ valid_tag tt ->
   get_text_content p pt s st t tt
   = Raise (ValueError (lit "Invalid type provided: " ++ tt))).
Proof.
  rewrite get_text_content_outcome. unfold first_offending.
  split; [|split].
  - intros P. apply offending_iff in P. rewrite P. reflexivity.
  - intros P S. apply not_offending in P. apply offending_iff in S.
    rewrite P, S. reflexivity.
  - intros P S T. apply not_offending in P. apply not_offending in S.
    apply offending_iff in T. rewrite P, S, T. reflexivity.
Qed.

Lemma first_invalid_type_is_reported_witness :
  get_text_content (Some (lit "a")) (lit "bold")
    (Some (lit "b")) (lit "italic") None PLAIN_TEXT_TYPE
  = Raise (ValueError (lit "Invalid type provided: bold")) /\
  get_text_content (Some []) (lit "bold")
    (Some (lit "b")) (lit "italic") (Some (lit "c")) (lit "thin")
  = Raise (ValueError (lit "Invalid type provided: italic")) /\
  get_text_content (Some (lit "a")) RICH_TEXT_TYPE
    None (lit "italic") (Some (lit "c")) (lit "thin")
  = Raise (ValueError (lit "Invalid type provided: thin")).
Proof.
  assert (B : forall x tag, recognized tag = false ->
                nonempty (Some (lit x)) -> 
                nonempty (Some (lit x)) /\ ~ valid_tag tag).
  { intros x tag R N. split; [exact N|].
    intros V. apply recognized_valid in V. congruence. }
  assert (G : forall x tag, truthy x = false \/ recognized tag = true ->
                ~ (nonempty x /\ ~ valid_tag tag)).
  { intros x tag [E | E] [N V].
    - apply truthy_nonempty in N. congruence.
    - apply V, recognized_valid, E. }
  split; [|split].
  - apply (proj1 (first_invalid_type_is_reported
                    (Some (lit "a")) (lit "bold")
                    (Some (lit "b")) (lit "italic") None PLAIN_TEXT_TYPE)).
    apply B; [reflexivity | eexists; eexists; reflexivity].
  - apply (proj1 (proj2 (first_invalid_type_is_reported
                    (Some []) (lit "bold")
                    (Some (lit "b")) (lit "italic")
                    (Some (lit "c")) (lit "thin")))).
    + apply G; left; reflexivity.
    + apply B; [reflexivity | eexists; eexists; reflexivity].
  - apply (proj2 (proj2 (first_invalid_type_is_reported
                    (Some (lit "a")) RICH_TEXT_TYPE
                    None (lit "italic") (Some (lit "c")) (lit "thin")))).
    + apply G; right; reflexivity.
    + apply G; left; reflexivity.
    + apply B; [reflexivity | eexists; eexists; reflexivity].
Defined.

(** X14: [__set_text_field] returns [None] exactly when the text is
    absent or empty, and then whatever the type is: for a non-empty
    text it either raises or returns a text value. *)
Theorem set_text_field_none_iff_empty (text : option str) (tag : str) :
  __set_text_field text tag = Return None <->
  text = None \/ text = Some [].
Proof.
  destruct text as [[|c x]|]; simpl.
  - split; auto.
  - split.
    + destruct (negb (recognized tag)); [discriminate|].
      destruct (str_eqb tag PLAIN_TEXT_TYPE); discriminate.
    + intros [H | H]; discriminate H.
  - split; auto.
Qed.

Lemma set_text_field_none_iff_empty_witness :
  __set_text_field (Some []) (lit "bogus") = Return None.
Proof.
  apply (proj2 (set_text_field_none_iff_empty (Some []) (lit "bogus"))).
  right; reflexivity.
Defined.

(** X15: the type given with an absent or empty text is never looked
    at: two calls of [get_text_content] that differ only in the types
    of such fields have the same outcome. *)
Theorem empty_text_type_is_not_checked
    (p : option str) (pt pt' : str) (s : option str) (st st' : str)
    (t : option str) (tt tt' : str) :
  (truthy p = true -> pt = pt') ->
  (truthy s = true -> st = st') ->
  (truthy t = true -> tt = tt') ->
  get_text_content p pt s st t tt = get_text_content p pt' s st' t tt'.
Proof.
  intros Hp Hs Ht.
  destruct p as [[|? ?]|], s as [[|? ?]|], t as [[|? ?]|];
    cbn [truthy] in Hp, Hs, Ht;
    try rewrite (Hp eq_refl); try rewrite (Hs eq_refl);
    try rewrite (Ht eq_refl);
    reflexivity.
Qed.

Lemma empty_text_type_is_not_checked_witness :
  (truthy None = true -> lit "bogus" = PLAIN_TEXT_TYPE) /\
  (truthy (Some (lit "b")) = true -> RICH_TEXT_TYPE = RICH_TEXT_TYPE) /\
  (truthy (Some []) = true -> lit "x" = lit "y") /\
  get_text_content None (lit "bogus") (Some (lit "b")) RICH_TEXT_TYPE
    (Some []) (lit "x")
  = get_text_content None PLAIN_TEXT_TYPE (Some (lit "b")) RICH_TEXT_TYPE
      (Some []) (lit "y").
Proof.
  assert (H1 : truthy None = true -> lit "bogus" = PLAIN_TEXT_TYPE)
    by (simpl; discriminate).
  assert (H2 : truthy (Some (lit "b")) = true ->
               RICH_TEXT_TYPE = RICH_TEXT_TYPE)
    by reflexivity.
  assert (H3 : truthy (Some []) = true -> lit "x" = lit "y")
    by (simpl; discriminate).
  split; [exact H1|]. split; [exact H2|]. split; [exact H3|].
  exact (empty_text_type_is_not_checked
           None (lit "bogus") PLAIN_TEXT_TYPE
           (Some (lit "b")) RICH_TEXT_TYPE RICH_TEXT_TYPE
           (Some []) (lit "x") (lit "y") H1 H2 H3).
Defined.

(** X16: [get_plain_text_content] and [get_rich_text_content] return
    the same text content exactly when all three texts are absent or
    empty; with any non-empty text the two results differ. *)
Theorem plain_and_rich_agree_only_on_empty (p s t : option str) :
  get_plain_text_content p s t = get_rich_text_content p s t <->
  truthy p = false /\ truthy s = false /\ truthy t = false.
Proof.
  destruct p as [[|? ?]|], s as [[|? ?]|], t as [[|? ?]|];
    (split;
     [intros H; cbv in H; try discriminate H; repeat split
     |intros (H1 & H2 & H3);
      try discriminate H1; try discriminate H2; try discriminate H3;
      reflexivity]).
Qed.

Lemma plain_and_rich_agree_only_on_empty_witness :
  get_plain_text_content None (Some []) None
  = get_rich_text_content None (Some []) None.
Proof.
  apply (proj2 (plain_and_rich_agree_only_on_empty None (Some []) None)).
  repeat split.
Defined.
